(** * go-result: Go-style [value, error] tuples for TypeScript

    A shallow embedding of [src/index.ts] (the two constructors [ok] and
    [err] and the type alias [Result]) together with the fragment of the
    JavaScript run-time model they rely on: the value universe, an object
    heap on which an array literal allocates a fresh array, strict equality
    with [null], and [ToBoolean].  The consumer idioms of the README and of
    the test-suite (destructuring, [if (error)], [if (value)]) are embedded
    next to them. *)

From Stdlib Require Import ZArith Floats.SpecFloat.
From stdpp Require Import base decidable option list strings pretty gmap.

(** ** The JavaScript fragment *)

Module Js.

(** Heap addresses of objects. *)
Abbreviation loc := nat (only parsing).

(** Run-time values.  Numbers are IEEE 754 binary64 data ([spec_float]
    has a single NaN, as JavaScript observes it); everything that is not
    a primitive is a reference into the heap. *)
Inductive JsValue : Type :=
| JsUndefined
| JsNull
| JsBoolean (b : bool)
| JsNumber (x : spec_float)
| JsBigInt (n : Z)
| JsString (s : string)
| JsSymbol (id : positive)
| JsObject (l : loc).

#[global] Instance spec_float_eq_dec : EqDecision spec_float.
Proof. solve_decision. Defined.

#[global] Instance JsValue_eq_dec : EqDecision JsValue.
Proof. solve_decision. Defined.

(** binary64: 53 bits of precision, exponents below 1024. *)
Definition prec : Z := 53.
Definition emax : Z := 1024.

(** The number literal [z] for an integer [z]. *)
Definition num (z : Z) : JsValue :=
  JsNumber (binary_normalize prec emax z 0 false).

Definition NaN : JsValue := JsNumber S754_nan.

(** [ToBoolean]: the falsy values are [undefined], [null], [false],
    [+0], [-0], [NaN], [0n] and the empty string. *)
Definition toBoolean (v : JsValue) : bool :=
  match v with
  | JsUndefined | JsNull => false
  | JsBoolean b => b
  | JsNumber (S754_zero _) | JsNumber S754_nan => false
  | JsNumber _ => true
  | JsBigInt n => negb (n =? 0)%Z
  | JsString s => negb (String.eqb s EmptyString)
  | JsSymbol _ | JsObject _ => true
  end.

(** [v === w] (IsStrictlyEqual): numbers compare as IEEE 754 values, so
    [NaN === NaN] is false and [+0 === -0] is true; every other kind
    compares by identity of the value. *)
Definition strictEquals (v w : JsValue) : bool :=
  match v, w with
  | JsNumber x, JsNumber y => SFeqb x y
  | _, _ => bool_decide (v = w)
  end.

(** [v === null], which is also what [expect(v).toBeNull()] tests. *)
Definition isNull (v : JsValue) : bool := strictEquals v JsNull.

(** Heap objects: arrays, with their [Object.freeze] status, and plain
    objects with string-keyed properties (payloads such as
    [{ code: 404, message: 'Not found' }]). *)
Inductive HeapObject : Type :=
| ArrayObj (elements : list JsValue) (frozen : bool)
| PlainObj (props : gmap string JsValue) (frozen : bool).

Abbreviation Heap := (list HeapObject) (only parsing).

(** How an evaluation ends: with a value, or with a thrown value. *)
Inductive Completion (A : Type) : Type :=
| Normal (a : A)
| Throw (exn : JsValue).
Arguments Normal {A} a.
Arguments Throw {A} exn.

(** Computations over the heap. *)
Definition JS (A : Type) : Type := Heap -> Completion A * Heap.

Definition ret {A} (a : A) : JS A := fun h => (Normal a, h).

Definition bind {A B} (m : JS A) (k : A -> JS B) : JS B :=
  fun h =>
    match m h with
    | (Normal a, h') => k a h'
    | (Throw e, h') => (Throw e, h')
    end.

Declare Scope js_scope.
Delimit Scope js_scope with js.
Notation "x <- m ;; k" := (bind m (fun x => k))
  (at level 100, m at next level, right associativity) : js_scope.

(** Allocation returns the next free address. *)
Definition alloc (o : HeapObject) : JS loc :=
  fun h => (Normal (length h), h ++ [o]).

(** The array literal [[e0, e1, ...]]: a fresh, unfrozen array. *)
Definition arrayLiteral (elems : list JsValue) : JS JsValue :=
  (l <- alloc (ArrayObj elems false) ;; ret (JsObject l))%js.

(** The elements of the array [r] refers to. *)
Definition contents (h : Heap) (r : JsValue) : option (list JsValue) :=
  match r with
  | JsObject l =>
      match h !! l with
      | Some (ArrayObj elems _) => Some elems
      | _ => None
      end
  | _ => None
  end.

(** [r.length] of an array. *)
Definition arrayLength (h : Heap) (r : JsValue) : option nat :=
  length <$> contents h r.

(** [r[i]] on an array: the element, or [undefined] past the end. *)
Definition readIndex (h : Heap) (r : JsValue) (i : nat) : option JsValue :=
  (fun elems => default JsUndefined (elems !! i)) <$> contents h r.

(** [Object.isFrozen(r)] on an object reference. *)
Definition isFrozen (h : Heap) (r : JsValue) : option bool :=
  match r with
  | JsObject l =>
      match h !! l with
      | Some (ArrayObj _ fr) | Some (PlainObj _ fr) => Some fr
      | None => None
      end
  | _ => None
  end.

(** The elements after [a[i] = v]: in range the slot is replaced, past
    the end the array grows and the gap reads [undefined]. *)
Definition storeElement (elems : list JsValue) (i : nat) (v : JsValue)
  : list JsValue :=
  if decide (i < length elems) then <[i := v]> elems
  else elems ++ replicate (i - length elems) JsUndefined ++ [v].

Definition typeError : JsValue := JsString "TypeError".

(** The assignment [r[i] = v] in strict-mode code (ES modules).  It
    writes through to an unfrozen array or object and throws a
    [TypeError] on a frozen one and on every primitive receiver.  The
    thrown object is abbreviated to its name; an address outside the
    heap does not occur in a run and is left alone. *)
Definition writeIndex (r : JsValue) (i : nat) (v : JsValue) : JS unit :=
  fun h =>
    match r with
    | JsObject l =>
        match h !! l with
        | Some (ArrayObj elems false) =>
            (Normal tt, <[l := ArrayObj (storeElement elems i v) false]> h)
        | Some (PlainObj props false) =>
            (Normal tt, <[l := PlainObj (<[pretty i := v]> props) false]> h)
        | Some (ArrayObj _ true) | Some (PlainObj _ true) =>
            (Throw typeError, h)
        | None => (Normal tt, h)
        end
    | _ => (Throw typeError, h)
    end.

End Js.

(** ** src/index.ts *)

Module GoResult.
Import Js.

(** [export type Result<S, E> = readonly [S, null] | readonly [null, E]].
    A TypeScript type is read as the set of values it admits; the alias
    describes the elements of the tuple and has no run-time
    representation of its own. *)
Inductive Result (S E : JsValue -> Prop) : list JsValue -> Prop :=
| Result_success (s : JsValue) : S s -> Result S E [s; JsNull]
| Result_failure (e : JsValue) : E e -> Result S E [JsNull; e].

(** [export const ok = <S>(value: S): readonly [S, null] =>
      [value, null] as const].
    The type parameter, the [readonly] return type and [as const] are
    erased by the compiler: what runs is the array literal. *)
Definition ok (value : JsValue) : JS JsValue :=
  arrayLiteral [value; JsNull].

(** [export const err = <E>(error: E): readonly [null, E] =>
      [null, error] as const]. *)
Definition err (error : JsValue) : JS JsValue :=
  arrayLiteral [JsNull; error].

End GoResult.

(** ** Consumers: the idioms of the README and of the test-suite *)

Module Consumer.
Import Js GoResult.

(** [const [value, error] = r] on an array: missing slots read
    [undefined].  [None] when [r] is not an array of the heap. *)
Definition destructure (h : Heap) (r : JsValue)
  : option (JsValue * JsValue) :=
  value ← readIndex h r 0;
  error ← readIndex h r 1;
  Some (value, error).

(** The two variants of a [Result]. *)
Inductive Variant : Type := Success | Failure.

(** The discrimination rule: the variant is decided by whether position
    1 is [null] ([expect(error).toBeNull()] in the tests). *)
Definition variant (h : Heap) (r : JsValue) : option Variant :=
  error ← readIndex h r 1;
  Some (if isNull error then Success else Failure).

(** A consumer that tests position 0 against [null] to decide whether a
    value is present. *)
Definition valuePresent (h : Heap) (r : JsValue) : option bool :=
  value ← readIndex h r 0;
  Some (negb (isNull value)).

(** The number of positions of the container holding something else
    than [null]. *)
Definition nonSentinelPositions (h : Heap) (r : JsValue) : option nat :=
  elems ← contents h r;
  Some (length (filter (fun v => isNull v = false) elems)).

(** Where the README's idioms go. *)
Inductive Branch : Type :=
| ErrorBranch (error : JsValue)
| ContinueWith (value : JsValue)
| Skipped.

(** README, "Early Return Pattern":
    [const [value, error] = operation();
     if (error) return err(error);
     // value is type-safe here] *)
Definition earlyReturn (h : Heap) (r : JsValue) : option Branch :=
  '(value, error) ← destructure h r;
  Some (if toBoolean error then ErrorBranch error else ContinueWith value).

(** README, "Success-only Pattern":
    [const [value] = divide(10, 2);
     if (value) { console.log("Success:", value); }] *)
Definition successOnly (h : Heap) (r : JsValue) : option Branch :=
  value ← readIndex h r 0;
  Some (if toBoolean value then ContinueWith value else Skipped).

(** Two references hold the same elements in the same order.  Equal
    elements are deeply equal, so this implies what [toEqual] tests. *)
Definition sameContents (h : Heap) (r1 r2 : JsValue) : Prop :=
  ∃ elems, contents h r1 = Some elems ∧ contents h r2 = Some elems.

(** A call of one of the two constructors. *)
Inductive Call : Type :=
| ViaOk (value : JsValue)
| ViaErr (error : JsValue).

Definition construct (c : Call) : JS JsValue :=
  match c with
  | ViaOk value => ok value
  | ViaErr error => err error
  end.

(** What code holding a reference [r] to a container can do next: read
    a position, assign to a position, or call a constructor again. *)
Inductive Op : Type :=
| Read (i : nat)
| Assign (i : nat) (v : JsValue)
| Construct (c : Call).

Definition step (r : JsValue) (o : Op) : JS unit :=
  match o with
  | Read _ => ret tt
  | Assign i v => writeIndex r i v
  | Construct c => (_ <- construct c ;; ret tt)%js
  end.

Fixpoint steps (r : JsValue) (os : list Op) : JS unit :=
  match os with
  | [] => ret tt
  | o :: os' => (_ <- step r o ;; steps r os')%js
  end.

(** Two constructions of the same container with other operations in
    between: [const r1 = c(); ...; const r2 = c();]. *)
Definition twice (c : Call) (between : list Op) : JS (JsValue * JsValue) :=
  (r1 <- construct c ;;
   _ <- steps r1 between ;;
   r2 <- construct c ;;
   ret (r1, r2))%js.

(** A failure with payload [E] that the early-return idiom lets through
    as if it were a success. *)
Definition failureReadAsSuccess (E : JsValue) (h : Heap) : Prop :=
  ∃ r h',
    err E h = (Normal r, h')
    ∧ variant h' r = Some Failure
    ∧ earlyReturn h' r = Some (ContinueWith JsNull).

(** A success with payload [V] that the success-only idiom skips. *)
Definition successSkipped (V : JsValue) (h : Heap) : Prop :=
  ∃ r h',
    ok V h = (Normal r, h')
    ∧ variant h' r = Some Success
    ∧ successOnly h' r = Some Skipped.

(** The test-suite's [divide]:
    [if (b === 0) { return err('division by zero'); } return ok(a / b);] *)
Definition divide (a b : spec_float) : JS JsValue :=
  if strictEquals (JsNumber b) (num 0)
  then err (JsString "division by zero")
  else ok (JsNumber (SFdiv prec emax a b)).

End Consumer.

(** ** Callers: the functions of the test-suite and the README's
    propagation idiom *)

Module Callers.
Import Js GoResult Consumer.

(** The number an integer literal denotes. *)
Definition float (z : Z) : spec_float := binary_normalize prec emax z 0 false.

(** [a <= b] on numbers: false as soon as one side is [NaN]. *)
Definition lessOrEqual (a b : spec_float) : bool := SFleb a b.

(** The object literal [{ k1: v1, k2: v2, ... }]: a fresh, unfrozen
    object. *)
Definition objectLiteral (props : list (string * JsValue)) : JS JsValue :=
  (l <- alloc (PlainObj (list_to_map props) false) ;; ret (JsObject l))%js.

(** A computation that may leave the modelled fragment: [None] stands for
    a step whose meaning is not given here. *)
Definition Partial (A : Type) : Type :=
  Heap -> option (Completion A * Heap).

Definition pret {A} (a : A) : Partial A := fun h => Some (Normal a, h).

Definition pbind {A B} (m : Partial A) (k : A -> Partial B) : Partial B :=
  fun h =>
    match m h with
    | Some (Normal a, h') => k a h'
    | Some (Throw e, h') => Some (Throw e, h')
    | None => None
    end.

(** A computation of the fragment. *)
Definition lift {A} (m : JS A) : Partial A := fun h => Some (m h).

(** A read of the heap that completes, normally or not, or is not
    modelled. *)
Definition observe {A} (f : Heap -> option (Completion A)) : Partial A :=
  fun h => c ← f h; Some (c, h).

Declare Scope partial_scope.
Delimit Scope partial_scope with partial.
Notation "x <- m ;; k" := (pbind m (fun x => k))
  (at level 100, m at next level, right associativity) : partial_scope.

(** [const [value, error] = r] as a step. *)
Definition destructured (r : JsValue) : Partial (JsValue * JsValue) :=
  observe (fun h => Normal <$> destructure h r).

(** [v.key]: a [TypeError] on [null] and [undefined], the property on an
    object that has it as an own property.  Inherited properties and the
    properties of the other receivers are not modelled. *)
Definition getProperty (v : JsValue) (key : string) : Partial JsValue :=
  observe (fun h =>
    match v with
    | JsNull | JsUndefined => Some (Throw typeError)
    | JsObject l =>
        match h !! l with
        | Some (PlainObj props _) => Normal <$> props !! key
        | _ => None
        end
    | _ => None
    end).

(** [`${v}`] on the primitives whose conversion to a string is a
    constant or the string itself. *)
Definition interpolate (v : JsValue) : Partial string :=
  observe (fun _ =>
    match v with
    | JsString s => Some (Normal s)
    | JsUndefined => Some (Normal "undefined")
    | JsNull => Some (Normal "null")
    | JsBoolean true => Some (Normal "true")
    | JsBoolean false => Some (Normal "false")
    | _ => None
    end).

(** README, "For AI/LLM Code Generation":
    [const [value, error] = operation();
     if (error) return err(error);
     // value is type-safe here]
    followed by whatever the caller does with [value]. *)
Definition propagate (operation : JS JsValue) (rest : JsValue -> JS JsValue)
  : Partial JsValue :=
  (r <- lift operation ;;
   p <- destructured r ;;
   if toBoolean p.2 then lift (err p.2) else lift (rest p.1))%partial.

(** [type UserError = 'not_found' | 'invalid_id']. *)
Definition UserError (v : JsValue) : Prop :=
  v = JsString "not_found" ∨ v = JsString "invalid_id".

(** [interface User { id: number; name: string; }], on the objects of
    the heap [h]. *)
Definition User (h : Heap) (v : JsValue) : Prop :=
  ∃ l props fr id name,
    v = JsObject l
    ∧ h !! l = Some (PlainObj props fr)
    ∧ props !! "id" = Some (JsNumber id)
    ∧ props !! "name" = Some (JsString name).

(** The type [number]. *)
Definition TNumber (v : JsValue) : Prop := ∃ x, v = JsNumber x.

(** The type [string]. *)
Definition TString (v : JsValue) : Prop := ∃ s, v = JsString s.

Section TemplateLiterals.

(** [Number::toString], the decimal rendering of a number in a template
    literal. *)
Variable numberToString : spec_float -> string.

(** The test-suite's [getUser]:
    [if (id <= 0) { return err('invalid_id'); }
     if (id === 999) { return err('not_found'); }
     return ok({ id, name: `User ${id}` });] *)
Definition getUser (id : spec_float) : JS JsValue :=
  if lessOrEqual id (float 0) then err (JsString "invalid_id")
  else if strictEquals (JsNumber id) (num 999) then err (JsString "not_found")
  else
    (user <- objectLiteral
               [("id", JsNumber id);
                ("name", JsString ("User " +:+ numberToString id))] ;;
     ok user)%js.

(** The object [{ id, name: `User ${id}` }] that [getUser] allocates. *)
Definition userObject (id : spec_float) : HeapObject :=
  PlainObj
    (list_to_map
       [("id", JsNumber id);
        ("name", JsString ("User " +:+ numberToString id))])
    false.

(** The test-suite's [processUser]:
    [const [user, error] = getUser(id);
     if (error) { return `Error: ${error}`; }
     return `Processing ${user.name}`;] *)
Definition processUser (id : spec_float) : Partial string :=
  (r <- lift (getUser id) ;;
   p <- destructured r ;;
   if toBoolean p.2 then
     s <- interpolate p.2 ;;
     pret ("Error: " +:+ s)
   else
     name <- getProperty p.1 "name" ;;
     s <- interpolate name ;;
     pret ("Processing " +:+ s))%partial.

End TemplateLiterals.

End Callers.

(** ** Properties *)

Import Js GoResult Consumer Callers.

(** *** The heap under allocation *)

Section Allocation.
Implicit Types (h : Heap) (r v : JsValue) (elems : list JsValue).

Lemma arrayLiteral_run elems h :
  arrayLiteral elems h
  = (Normal (JsObject (length h)), h ++ [ArrayObj elems false]).
Proof. reflexivity. Qed.

Lemma ok_run value h :
  ok value h
  = (Normal (JsObject (length h)), h ++ [ArrayObj [value; JsNull] false]).
Proof. apply arrayLiteral_run. Qed.

Lemma err_run error h :
  err error h
  = (Normal (JsObject (length h)), h ++ [ArrayObj [JsNull; error] false]).
Proof. apply arrayLiteral_run. Qed.

(** The address handed out by an allocation holds the new object. *)
Lemma lookup_fresh h (o : HeapObject) : (h ++ [o]) !! length h = Some o.
Proof. by rewrite lookup_app_r, Nat.sub_diag. Qed.

(** Objects allocated earlier stay where they are. *)
Lemma lookup_older h h' l (o : HeapObject) :
  h !! l = Some o → (h ++ h') !! l = Some o.
Proof. intros Hl. by apply lookup_app_l_Some. Qed.

Lemma contents_fresh h elems fr :
  contents (h ++ [ArrayObj elems fr]) (JsObject (length h)) = Some elems.
Proof. unfold contents. by rewrite lookup_fresh. Qed.

Lemma contents_older h h' r elems :
  contents h r = Some elems → contents (h ++ h') r = Some elems.
Proof.
  unfold contents. destruct r as [| | | | | | |l]; try discriminate.
  destruct (h !! l) as [o|] eqn:Hl; [|discriminate].
  by rewrite (lookup_older _ h' _ _ Hl).
Qed.

Lemma readIndex_fresh h elems fr i :
  readIndex (h ++ [ArrayObj elems fr]) (JsObject (length h)) i
  = Some (default JsUndefined (elems !! i)).
Proof. unfold readIndex. by rewrite contents_fresh. Qed.

Lemma isNull_spec v : isNull v = true ↔ v = JsNull.
Proof.
  unfold isNull, strictEquals.
  destruct v; rewrite ?bool_decide_spec; naive_solver.
Qed.

Lemma isNull_false v : isNull v = false ↔ v ≠ JsNull.
Proof. rewrite <- isNull_spec. by destruct (isNull v). Qed.

End Allocation.

(** *** The constructors *)

(** C1.  For every value V, [null] included, and whatever the heap, [ok V]
    returns a reference to an array of length two whose position 0 is V and
    whose position 1 is [null]. *)
Theorem ok_positions (V : JsValue) (h : Heap) :
  ∃ r h',
    ok V h = (Normal r, h')
    ∧ arrayLength h' r = Some 2
    ∧ readIndex h' r 0 = Some V
    ∧ readIndex h' r 1 = Some JsNull.
Proof.
  eexists _, _. split; [apply ok_run|].
  unfold arrayLength. by rewrite !readIndex_fresh, contents_fresh.
Qed.

(** C2.  For every value E, [null] included, and whatever the heap, [err E]
    returns a reference to an array of length two whose position 0 is
    [null] and whose position 1 is E. *)
Theorem err_positions (E : JsValue) (h : Heap) :
  ∃ r h',
    err E h = (Normal r, h')
    ∧ arrayLength h' r = Some 2
    ∧ readIndex h' r 0 = Some JsNull
    ∧ readIndex h' r 1 = Some E.
Proof.
  eexists _, _. split; [apply err_run|].
  unfold arrayLength. by rewrite !readIndex_fresh, contents_fresh.
Qed.

(** C5.  Both constructors are total and free of side effects: on every
    argument and in every heap they complete normally, never with a thrown
    value, the reference they return is a fresh address, and every object
    that was in the heap before the call is still there, unchanged.  The
    argument is stored as it is, without being inspected. *)
Theorem constructors_total_and_pure (v : JsValue) (h : Heap) :
  (∃ l h',
      ok v h = (Normal (JsObject l), h')
      ∧ h !! l = None
      ∧ h' !! l = Some (ArrayObj [v; JsNull] false)
      ∧ length h' = S (length h)
      ∧ ∀ l' o, h !! l' = Some o → h' !! l' = Some o)
  ∧ (∃ l h',
      err v h = (Normal (JsObject l), h')
      ∧ h !! l = None
      ∧ h' !! l = Some (ArrayObj [JsNull; v] false)
      ∧ length h' = S (length h)
      ∧ ∀ l' o, h !! l' = Some o → h' !! l' = Some o)
  ∧ (∀ exn h', ok v h ≠ (Throw exn, h') ∧ err v h ≠ (Throw exn, h')).
Proof.
  split; [|split].
  - exists (length h), (h ++ [ArrayObj [v; JsNull] false]).
    split; [apply ok_run|]. split; [by apply lookup_ge_None|].
    split; [apply lookup_fresh|]. split; [rewrite length_app; simpl; lia|].
    intros l' o. apply lookup_older.
  - exists (length h), (h ++ [ArrayObj [JsNull; v] false]).
    split; [apply err_run|]. split; [by apply lookup_ge_None|].
    split; [apply lookup_fresh|]. split; [rewrite length_app; simpl; lia|].
    intros l' o. apply lookup_older.
  - intros exn h'. rewrite ok_run, err_run. split; discriminate.
Qed.

(** *** Runs of several operations *)

Section Runs.
Implicit Types (h : Heap) (r v : JsValue) (c : Call) (os : list Op).

Lemma bind_normal {A B} (m : JS A) (k : A → JS B) h a h' :
  m h = (Normal a, h') → bind m k h = k a h'.
Proof. unfold bind. by intros ->. Qed.

Lemma construct_run c h :
  ∃ elems,
    construct c h
    = (Normal (JsObject (length h)), h ++ [ArrayObj elems false])
    ∧ elems = match c with
              | ViaOk value => [value; JsNull]
              | ViaErr error => [JsNull; error]
              end.
Proof. destruct c; eexists; split; reflexivity. Qed.

(** A run of constructor calls only ever extends the heap. *)
Lemma steps_construct_extend r (calls : list Call) h :
  ∃ hs, steps r (Construct <$> calls) h = (Normal tt, h ++ hs).
Proof.
  revert h. induction calls as [|c calls IH]; intros h.
  - exists []. simpl. by rewrite app_nil_r.
  - destruct (construct_run c h) as (elems & Hc & _).
    destruct (IH (h ++ [ArrayObj elems false])) as [hs Hs].
    exists ([ArrayObj elems false] ++ hs).
    rewrite fmap_cons. cbn [steps step].
    erewrite bind_normal; [|erewrite bind_normal; [reflexivity|exact Hc]].
    rewrite Hs. by rewrite <- app_assoc.
Qed.

End Runs.

(** *** One payload, one sentinel *)

(** C3 (counterexample).  The invariant with the exception granted to a
    [null] success payload only fails on the failure side: [err(null)] is
    not covered by that exception, and neither of its positions holds
    something else than [null]. *)
Lemma err_null_holds_no_payload :
  ∃ r h',
    err JsNull [] = (Normal r, h')
    ∧ contents h' r = Some [JsNull; JsNull]
    ∧ nonSentinelPositions h' r = Some 0
    ∧ nonSentinelPositions h' r ≠ Some 1.
Proof. eexists _, _. repeat split; [reflexivity..|discriminate]. Qed.

(** C3 (amended).  A container produced by either constructor has exactly
    one position holding something else than [null], unless the payload,
    V for [ok] or E for [err], is itself [null]; then both positions are
    [null]. *)
Theorem exactly_one_payload_position (p : JsValue) (h : Heap) :
  (∃ r h',
      ok p h = (Normal r, h')
      ∧ nonSentinelPositions h' r = Some (if isNull p then 0 else 1))
  ∧ (∃ r h',
      err p h = (Normal r, h')
      ∧ nonSentinelPositions h' r = Some (if isNull p then 0 else 1)).
Proof.
  split; eexists _, _; (split; [first [apply ok_run | apply err_run]|]);
    unfold nonSentinelPositions; rewrite contents_fresh; simpl;
    rewrite !filter_cons, filter_nil;
    destruct (isNull p) eqn:Hp; repeat case_decide; naive_solver.
Qed.

(** *** Discrimination by position 1 *)

(** C4 (counterexample).  Not every container produced by [err] has a
    position 1 different from [null]: on [err(null)] the test "position 1
    is [null]" answers success. *)
Lemma err_null_classified_success :
  ∃ r h',
    err JsNull [] = (Normal r, h')
    ∧ readIndex h' r 1 = Some JsNull
    ∧ variant h' r = Some Success.
Proof. eexists _, _. repeat split; reflexivity. Qed.

(** C4 (amended).  Testing position 1 against [null] decides the variant:
    for every payload a container produced by [ok] has [null] at position
    1, and for every payload other than [null] a container produced by
    [err] has something else than [null] there. *)
Theorem position1_discriminates (p : JsValue) (h : Heap) :
  (∃ r h', ok p h = (Normal r, h') ∧ variant h' r = Some Success)
  ∧ (p ≠ JsNull →
     ∃ r h', err p h = (Normal r, h') ∧ variant h' r = Some Failure).
Proof.
  split.
  - eexists _, _. split; [apply ok_run|].
    unfold variant. by rewrite readIndex_fresh.
  - intros Hp%isNull_false. eexists _, _. split; [apply err_run|].
    unfold variant. rewrite readIndex_fresh. simpl. by rewrite Hp.
Qed.

Lemma position1_discriminates_witness :
  JsString "division by zero" ≠ JsNull
  ∧ ∃ r h',
      err (JsString "division by zero") [] = (Normal r, h')
      ∧ variant h' r = Some Failure.
Proof.
  split; [discriminate|].
  apply (position1_discriminates (JsString "division by zero") []).
  discriminate.
Defined.

(** *** Independence of calls *)

(** C6.  The constructors are deterministic and keep no state between
    calls.  Called on equal payloads in any two heaps, a constructor
    returns containers with the same elements; and when the same
    construction is made twice in a row, with any other constructor calls
    and reads in between, the two results are distinct references that
    are equal by value. *)
Theorem constructors_referentially_transparent (c : Call) :
  (∀ h1 h2, ∃ r1 h1' r2 h2' elems,
      construct c h1 = (Normal r1, h1')
      ∧ construct c h2 = (Normal r2, h2')
      ∧ contents h1' r1 = Some elems
      ∧ contents h2' r2 = Some elems)
  ∧ (∀ h (calls : list Call), ∃ r1 r2 h',
      twice c (Construct <$> calls) h = (Normal (r1, r2), h')
      ∧ r1 ≠ r2
      ∧ sameContents h' r1 r2).
Proof.
  split.
  - intros h1 h2.
    destruct (construct_run c h1) as (elems & H1 & He).
    destruct (construct_run c h2) as (elems2 & H2 & He2).
    assert (elems2 = elems) as -> by congruence.
    eexists _, _, _, _, elems. split; [exact H1|]. split; [exact H2|].
    split; apply contents_fresh.
  - intros h calls.
    destruct (construct_run c h) as (elems & H1 & He).
    set (h1 := h ++ [ArrayObj elems false]) in *.
    destruct (steps_construct_extend (JsObject (length h)) calls h1)
      as [hs Hs].
    destruct (construct_run c (h1 ++ hs)) as (elems2 & H2 & He2).
    assert (elems2 = elems) as -> by congruence.
    exists (JsObject (length h)), (JsObject (length (h1 ++ hs))),
      ((h1 ++ hs) ++ [ArrayObj elems false]).
    split; [|split].
    + unfold twice.
      erewrite bind_normal by exact H1.
      erewrite bind_normal by exact Hs.
      erewrite bind_normal by exact H2.
      reflexivity.
    + unfold h1. rewrite !length_app. simpl. intros [=]. lia.
    + exists elems. split; [|apply contents_fresh].
      rewrite <- app_assoc. apply contents_older. apply contents_fresh.
Qed.

(** *** Reassignment *)

(** C7 (counterexample).  A later operation can change a position: the
    container is an ordinary array that nothing has frozen, so the
    assignment [r[0] = 2] on the result of [ok(1)] completes normally and
    position 0 then reads 2. *)
Lemma assignment_changes_position :
  ∃ r h1 h2,
    ok (num 1) [] = (Normal r, h1)
    ∧ isFrozen h1 r = Some false
    ∧ steps r [Assign 0 (num 2)] h1 = (Normal tt, h2)
    ∧ readIndex h1 r 0 = Some (num 1)
    ∧ readIndex h2 r 0 = Some (num 2)
    ∧ contents h2 r ≠ contents h1 r.
Proof. eexists _, _, _. repeat split; [reflexivity..|discriminate]. Qed.

(** C7 (amended).  The library never reassigns a container it has
    returned: for every result produced by [ok] or [err], no later call of
    [ok] or [err], however many, changes position 0 or position 1.  The
    array itself is not frozen, neither when the constructor returns nor
    later. *)
Theorem later_constructions_preserve_positions
    (c : Call) (calls : list Call) (h : Heap) :
  ∃ r h1 h2 elems,
    construct c h = (Normal r, h1)
    ∧ isFrozen h1 r = Some false
    ∧ steps r (Construct <$> calls) h1 = (Normal tt, h2)
    ∧ contents h1 r = Some elems
    ∧ contents h2 r = Some elems
    ∧ isFrozen h2 r = Some false.
Proof.
  destruct (construct_run c h) as (elems & Hc & _).
  destruct (steps_construct_extend (JsObject (length h)) calls
              (h ++ [ArrayObj elems false])) as [hs Hs].
  eexists _, _, _, elems. split; [exact Hc|].
  split; [unfold isFrozen; by rewrite lookup_fresh|].
  split; [exact Hs|].
  split; [apply contents_fresh|].
  split; [apply contents_older, contents_fresh|].
  unfold isFrozen.
  by rewrite (lookup_older _ hs _ _ (lookup_fresh h (ArrayObj elems false))).
Qed.

(** *** The sentinel as a payload *)

(** C8.  [ok(null)] is the container [[null, null]].  On it the test
    "position 1 is [null]" answers success, which is right, while the test
    "position 0 is not [null]" answers that no value is present. *)
Theorem ok_null_all_sentinel (h : Heap) :
  ∃ r h',
    ok JsNull h = (Normal r, h')
    ∧ contents h' r = Some [JsNull; JsNull]
    ∧ variant h' r = Some Success
    ∧ valuePresent h' r = Some false.
Proof.
  eexists _, _. split; [apply ok_run|].
  unfold variant, valuePresent.
  by rewrite !readIndex_fresh, contents_fresh.
Qed.

(** Two constructions that agree on one heap are the same call, or are
    [ok(null)] and [err(null)]. *)
Lemma construct_collision c1 c2 (h : Heap) :
  construct c1 h = construct c2 h →
  c1 = c2
  ∨ (c1 = ViaOk JsNull ∧ c2 = ViaErr JsNull)
  ∨ (c1 = ViaErr JsNull ∧ c2 = ViaOk JsNull).
Proof.
  destruct c1, c2; simpl; rewrite ?ok_run, ?err_run;
    intros [= Heq]; apply app_inv_head in Heq; naive_solver.
Qed.

(** C9.  At [null] the two constructors collapse: [ok(null)] and
    [err(null)] are the same computation, returning the same reference to
    [[null, null]] and the same heap, so whatever a consumer computes from
    the result is the same for both, and [construct] is not injective. *)
Theorem constructors_collapse_at_null :
  (∀ h, ok JsNull h = err JsNull h)
  ∧ (∀ h, ∃ r h',
        ok JsNull h = (Normal r, h')
        ∧ err JsNull h = (Normal r, h')
        ∧ contents h' r = Some [JsNull; JsNull])
  ∧ (∀ (A : Type) (observe : Completion JsValue * Heap → A) h,
        observe (ok JsNull h) = observe (err JsNull h))
  ∧ ViaOk JsNull ≠ ViaErr JsNull
  ∧ construct (ViaOk JsNull) = construct (ViaErr JsNull).
Proof.
  split; [reflexivity|].
  split; [intros h; eexists _, _; repeat split; apply contents_fresh|].
  split; [reflexivity|]. split; [discriminate|reflexivity].
Qed.

(** *** Truthiness *)

(** The early-return idiom takes its error branch on [err(E)] exactly
    when E is truthy. *)
Lemma earlyReturn_err E (h : Heap) :
  ∃ r h',
    err E h = (Normal r, h')
    ∧ earlyReturn h' r
      = Some (if toBoolean E then ErrorBranch E else ContinueWith JsNull).
Proof.
  eexists _, _. split; [apply err_run|].
  unfold earlyReturn, destructure. by rewrite !readIndex_fresh.
Qed.

(** The success-only idiom runs its body on [ok(V)] exactly when V is
    truthy. *)
Lemma successOnly_ok V (h : Heap) :
  ∃ r h',
    ok V h = (Normal r, h')
    ∧ successOnly h' r
      = Some (if toBoolean V then ContinueWith V else Skipped).
Proof.
  eexists _, _. split; [apply ok_run|].
  unfold successOnly. by rewrite !readIndex_fresh.
Qed.

(** C10.  Truthiness is not the variant.  For the error payloads [0], the
    empty string and [false], [err(E)] is a failure by the test on
    position 1, yet [if (error)] does not fire and the early-return idiom
    goes on as after a success; and [ok(0)] is a success that the
    success-only idiom [if (value)] skips. *)
Theorem truthiness_is_not_the_variant (h : Heap) :
  failureReadAsSuccess (num 0) h
  ∧ failureReadAsSuccess (JsString "") h
  ∧ failureReadAsSuccess (JsBoolean false) h
  ∧ successSkipped (num 0) h.
Proof.
  repeat split; eexists _, _;
    (split; [first [apply err_run | apply ok_run]|]);
    unfold variant, earlyReturn, destructure, successOnly;
    by rewrite !readIndex_fresh.
Qed.

(** *** The static type of the results *)

(** The array [ok] returns is typed [readonly [S, null]] and the one
    [err] returns [readonly [null, E]]: both inhabit [Result<S, E>]. *)
Lemma constructors_inhabit_Result (S E : JsValue → Prop) (p : JsValue) h :
  (S p → ∃ r h' elems,
      ok p h = (Normal r, h')
      ∧ contents h' r = Some elems ∧ Result S E elems)
  ∧ (E p → ∃ r h' elems,
      err p h = (Normal r, h')
      ∧ contents h' r = Some elems ∧ Result S E elems).
Proof.
  split; intros Hp; eexists _, _, _;
    (split; [first [apply ok_run | apply err_run]|]);
    (split; [apply contents_fresh|]); by constructor.
Qed.

(** *** The scenarios of the test-suite *)

Example ok_42 :
  ∃ r h', ok (num 42) [] = (Normal r, h')
          ∧ contents h' r = Some [num 42; JsNull].
Proof. by eexists _, _. Qed.

Example err_message :
  ∃ r h', err (JsString "something went wrong") [] = (Normal r, h')
          ∧ contents h' r = Some [JsNull; JsString "something went wrong"].
Proof. by eexists _, _. Qed.

Example ok_undefined :
  ∃ r h', ok JsUndefined [] = (Normal r, h')
          ∧ contents h' r = Some [JsUndefined; JsNull]
          ∧ nonSentinelPositions h' r = Some 1.
Proof. by eexists _, _. Qed.

Example divide_10_2 :
  ∃ x y r h',
    num 10 = JsNumber x ∧ num 2 = JsNumber y
    ∧ divide x y [] = (Normal r, h')
    ∧ destructure h' r = Some (num 5, JsNull).
Proof. eexists _, _, _, _. repeat split; vm_compute; reflexivity. Qed.

Example divide_10_0 :
  ∃ x y r h',
    num 10 = JsNumber x ∧ num 0 = JsNumber y
    ∧ divide x y [] = (Normal r, h')
    ∧ destructure h' r = Some (JsNull, JsString "division by zero").
Proof. eexists _, _, _, _. repeat split; vm_compute; reflexivity. Qed.

(** "should work with objects": the payload is the reference itself, and
    the object it refers to is left as it was. *)
Example ok_object :
  let obj := PlainObj {[ "name" := JsString "test"; "count" := num 5 ]} false in
  ∃ r h',
    ok (JsObject 0) [obj] = (Normal r, h')
    ∧ contents h' r = Some [JsObject 0; JsNull]
    ∧ h' !! 0 = Some obj.
Proof. by eexists _, _. Qed.

(** The payload is stored as it is: position 0 of [ok(NaN)] is [NaN],
    although [NaN === NaN] is false. *)
Example ok_NaN :
  (∃ r h', ok NaN [] = (Normal r, h') ∧ readIndex h' r 0 = Some NaN)
  ∧ strictEquals NaN NaN = false
  ∧ toBoolean NaN = false.
Proof. split; [by eexists _, _|done]. Qed.

(** ** Further properties of the constructors *)

Section Payloads.
Implicit Types (h : Heap) (r v : JsValue) (c : Call).

(** X1.  The container determines the call that made it, except at
    [null]: when two calls, in whatever heaps, return containers with the
    same elements, they are the same constructor applied to the same
    payload, or they are [ok(null)] and [err(null)]. *)
Theorem construct_contents_inj c1 c2 h1 h2 r1 r2 h1' h2' :
  construct c1 h1 = (Normal r1, h1') →
  construct c2 h2 = (Normal r2, h2') →
  contents h1' r1 = contents h2' r2 →
  c1 = c2
  ∨ (c1 = ViaOk JsNull ∧ c2 = ViaErr JsNull)
  ∨ (c1 = ViaErr JsNull ∧ c2 = ViaOk JsNull).
Proof.
  intros H1 H2.
  destruct (construct_run c1 h1) as (e1 & H1' & ->).
  destruct (construct_run c2 h2) as (e2 & H2' & ->).
  rewrite H1' in H1. rewrite H2' in H2. simplify_eq.
  rewrite !contents_fresh.
  destruct c1, c2; intros [=]; subst; auto.
Qed.

Lemma construct_contents_inj_witness :
  ViaOk (num 42) = ViaOk (num 42)
  ∨ (ViaOk (num 42) = ViaOk JsNull ∧ ViaOk (num 42) = ViaErr JsNull)
  ∨ (ViaOk (num 42) = ViaErr JsNull ∧ ViaOk (num 42) = ViaOk JsNull).
Proof.
  apply (construct_contents_inj (ViaOk (num 42)) (ViaOk (num 42))
           [] [ArrayObj [] true]
           (JsObject 0) (JsObject 1)
           [ArrayObj [num 42; JsNull] false]
           [ArrayObj [] true; ArrayObj [num 42; JsNull] false]);
    reflexivity.
Defined.

(** X2.  Results never share storage.  After two constructor calls, even
    two calls of [ok(null)], an assignment made through the first
    reference changes the first container and leaves the second one as it
    was. *)
Theorem results_do_not_alias c1 c2 h i v :
  ∃ r1 r2 h2 h3 elems1 elems2,
    (r1 <- construct c1 ;; r2 <- construct c2 ;; ret (r1, r2))%js h
    = (Normal (r1, r2), h2)
    ∧ contents h2 r1 = Some elems1
    ∧ contents h2 r2 = Some elems2
    ∧ writeIndex r1 i v h2 = (Normal tt, h3)
    ∧ contents h3 r1 = Some (storeElement elems1 i v)
    ∧ contents h3 r2 = Some elems2.
Proof.
  destruct (construct_run c1 h) as (e1 & H1 & _).
  set (h1 := h ++ [ArrayObj e1 false]) in *.
  destruct (construct_run c2 h1) as (e2 & H2 & _).
  set (h2 := h1 ++ [ArrayObj e2 false]) in *.
  assert (h2 !! length h = Some (ArrayObj e1 false)) as Hl1.
  { apply lookup_older, lookup_fresh. }
  assert (length h < length h2) as Hlt by (by eapply lookup_lt_Some).
  assert (length h ≠ length h1) as Hne.
  { unfold h1. rewrite length_app. simpl. lia. }
  exists (JsObject (length h)), (JsObject (length h1)), h2,
    (<[length h := ArrayObj (storeElement e1 i v) false]> h2), e1, e2.
  split; [|split; [|split; [|split; [|split]]]].
  - erewrite bind_normal by exact H1. erewrite bind_normal by exact H2.
    reflexivity.
  - unfold contents. by rewrite Hl1.
  - apply contents_fresh.
  - unfold writeIndex. by rewrite Hl1.
  - unfold contents. by rewrite list_lookup_insert_eq.
  - unfold contents. rewrite list_lookup_insert_ne by exact Hne.
    unfold h2. by rewrite lookup_fresh.
Qed.

End Payloads.

(** ** The type [Result] and the idioms that read it *)

Section Narrowing.
Variables S E : JsValue → Prop.
Implicit Types (h : Heap) (r : JsValue) (elems : list JsValue).

(** X3.  Narrowing on [null] is sound for a [Result<S, E>] whose error
    type does not admit [null]: when position 1 is [null], position 0 is
    an [S]; when it is not, it is an [E] and position 0 is [null]. *)
Theorem Result_null_test_sound h r elems :
  ¬ E JsNull →
  contents h r = Some elems →
  Result S E elems →
  (variant h r = Some Success ∧ ∃ s, S s ∧ elems = [s; JsNull])
  ∨ (variant h r = Some Failure ∧ ∃ e, E e ∧ elems = [JsNull; e]).
Proof.
  intros HE Hc HR. unfold variant, readIndex. rewrite Hc.
  destruct HR as [s Hs|e He]; simpl.
  - left. eauto.
  - right. assert (isNull e = false) as ->; [|eauto].
    apply isNull_false. by intros ->.
Qed.

(** X4.  The early-return idiom [if (error)] is sound for a
    [Result<S, E>] whose error type admits truthy values only: it takes
    its error branch on every failure, with the error, and goes on with
    the value, an [S], on every success. *)
Theorem earlyReturn_sound h r elems :
  (∀ e, E e → toBoolean e = true) →
  contents h r = Some elems →
  Result S E elems →
  (variant h r = Some Success
   ∧ ∃ s, S s ∧ earlyReturn h r = Some (ContinueWith s))
  ∨ (variant h r = Some Failure
     ∧ ∃ e, E e ∧ earlyReturn h r = Some (ErrorBranch e)).
Proof.
  intros HE Hc HR.
  unfold variant, earlyReturn, destructure, readIndex. rewrite Hc.
  destruct HR as [s Hs|e He]; simpl.
  - left. eauto.
  - right. pose proof (HE e He) as Ht. rewrite Ht.
    assert (isNull e = false) as ->; [|eauto].
    apply isNull_false. intros ->. discriminate.
Qed.

End Narrowing.

Lemma Result_null_test_sound_witness :
  let h := [ArrayObj [JsNull; JsString "not_found"] false] in
  (variant h (JsObject 0) = Some Success
   ∧ ∃ s, User h s ∧ [JsNull; JsString "not_found"] = [s; JsNull])
  ∨ (variant h (JsObject 0) = Some Failure
     ∧ ∃ e, UserError e
            ∧ [JsNull; JsString "not_found"] = [JsNull; e]).
Proof.
  intros h.
  apply (Result_null_test_sound (User h) UserError h (JsObject 0)
           [JsNull; JsString "not_found"]).
  - intros [[=]|[=]].
  - reflexivity.
  - apply Result_failure. by left.
Defined.

Lemma earlyReturn_sound_witness :
  let h := [ArrayObj [num 5; JsNull] false] in
  (variant h (JsObject 0) = Some Success
   ∧ ∃ s, TNumber s ∧ earlyReturn h (JsObject 0) = Some (ContinueWith s))
  ∨ (variant h (JsObject 0) = Some Failure
     ∧ ∃ e, e = JsString "division by zero"
            ∧ earlyReturn h (JsObject 0) = Some (ErrorBranch e)).
Proof.
  intros h.
  apply (earlyReturn_sound TNumber (λ e, e = JsString "division by zero")
           h (JsObject 0) [num 5; JsNull]).
  - by intros e ->.
  - reflexivity.
  - apply Result_success. by eexists.
Defined.

(** ** The callers of the test-suite *)

Section Divide.
Implicit Types (a b : spec_float) (h : Heap).

(** [b === 0] holds of the two zeros, and of nothing else. *)
Lemma strictEquals_zero b :
  strictEquals (JsNumber b) (num 0)
  = match b with S754_zero _ => true | _ => false end.
Proof. by destruct b as [[]| []| |[] m e]. Qed.

(** What a call of [divide] returns and leaves in the heap. *)
Lemma divide_run a b h :
  divide a b h
  = (Normal (JsObject (length h)),
     h ++ [ArrayObj
             match b with
             | S754_zero _ => [JsNull; JsString "division by zero"]
             | _ => [JsNumber (SFdiv prec emax a b); JsNull]
             end false]).
Proof.
  unfold divide. rewrite strictEquals_zero.
  destruct b; first [apply err_run | apply ok_run].
Qed.

(** X5.  [divide(a, b)] fails exactly when the divisor is [+0] or [-0],
    with the error ['division by zero'] and [null] as value; on every
    other divisor, [NaN] and the infinities included, it succeeds with the
    IEEE 754 quotient.  The result is a [Result<number, string>], and the
    early-return idiom [if (error)] takes its error branch exactly on the
    failures. *)
Theorem divide_fails_on_zero_divisor_only a b h :
  ∃ r h' elems,
    divide a b h = (Normal r, h')
    ∧ contents h' r = Some elems
    ∧ Result TNumber TString elems
    ∧ match b with
      | S754_zero _ =>
          elems = [JsNull; JsString "division by zero"]
          ∧ variant h' r = Some Failure
          ∧ earlyReturn h' r
            = Some (ErrorBranch (JsString "division by zero"))
      | _ =>
          elems = [JsNumber (SFdiv prec emax a b); JsNull]
          ∧ variant h' r = Some Success
          ∧ earlyReturn h' r
            = Some (ContinueWith (JsNumber (SFdiv prec emax a b)))
      end.
Proof.
  unfold divide. rewrite strictEquals_zero.
  assert (∀ q, ∃ r h' elems,
             ok (JsNumber q) h = (Normal r, h')
             ∧ contents h' r = Some elems
             ∧ Result TNumber TString elems
             ∧ elems = [JsNumber q; JsNull]
             ∧ variant h' r = Some Success
             ∧ earlyReturn h' r = Some (ContinueWith (JsNumber q))) as Hok.
  { intros q. eexists _, _, _. split; [apply ok_run|].
    split; [apply contents_fresh|].
    split; [apply Result_success; by eexists|].
    unfold variant, earlyReturn, destructure.
    by rewrite !readIndex_fresh. }
  destruct b as [s|s| |s m e]; try apply Hok.
  eexists _, _, _. split; [apply err_run|].
  split; [apply contents_fresh|].
  split; [apply Result_failure; by eexists|].
  unfold variant, earlyReturn, destructure.
  by rewrite !readIndex_fresh.
Qed.

(** X6.  The success-only idiom [if (value)] misses successes of
    [divide]: with a zero dividend and any divisor that is not a zero,
    [NaN] included, the division succeeds and the body of the idiom is
    skipped. *)
Theorem divide_zero_dividend_skipped (sa : bool) b h :
  (∀ sb, b ≠ S754_zero sb) →
  ∃ r h',
    divide (S754_zero sa) b h = (Normal r, h')
    ∧ variant h' r = Some Success
    ∧ successOnly h' r = Some Skipped.
Proof.
  intros Hb. unfold divide. rewrite strictEquals_zero.
  destruct b as [sb|sb| |sb m e]; [by destruct (Hb sb)|..];
    eexists _, _; (split; [apply ok_run|]);
    unfold variant, successOnly; by rewrite !readIndex_fresh.
Qed.

Lemma divide_zero_dividend_skipped_witness :
  ∃ r h',
    divide (float 0) (float 5) [] = (Normal r, h')
    ∧ variant h' r = Some Success
    ∧ successOnly h' r = Some Skipped.
Proof.
  apply (divide_zero_dividend_skipped false (float 5) []).
  intros sb. discriminate.
Defined.

End Divide.

(** *** Division never invents a [NaN] *)

Section Rounding.
Local Open Scope Z_scope.

Lemma shr_1_nonneg mrs : 0 ≤ shr_m mrs → 0 ≤ shr_m (shr_1 mrs).
Proof.
  destruct mrs as [m r s]. simpl.
  destruct m as [|[p|p|]|p]; simpl; lia.
Qed.

Lemma iter_pos_invariant {A} (P : A → Prop) (f : A → A) :
  (∀ x, P x → P (f x)) → ∀ p x, P x → P (SpecFloat.iter_pos f p x).
Proof.
  intros Hf. induction p as [p IH|p IH|]; intros x Hx; simpl; auto.
Qed.

Lemma shr_fexp_nonneg m e l :
  0 ≤ m → 0 ≤ shr_m (fst (shr_fexp prec emax m e l)).
Proof.
  intros Hm. unfold shr_fexp, shr.
  assert (0 ≤ shr_m (shr_record_of_loc m l)) as H0.
  { destruct l as [|[]]; exact Hm. }
  destruct (_ - e); simpl; auto.
  apply (iter_pos_invariant (λ mrs, 0 ≤ shr_m mrs)); auto using shr_1_nonneg.
Qed.

Lemma round_nearest_even_nonneg m l : 0 ≤ m → 0 ≤ round_nearest_even m l.
Proof.
  intros Hm. unfold round_nearest_even.
  destruct l as [|[]]; try destruct (Z.even m); lia.
Qed.

(** Rounding a non-negative mantissa gives a zero, a finite number or an
    infinity. *)
Lemma binary_round_aux_not_nan s m e l :
  0 ≤ m → binary_round_aux prec emax s m e l ≠ S754_nan.
Proof.
  intros Hm. unfold binary_round_aux.
  pose proof (shr_fexp_nonneg m e l Hm) as H1.
  destruct (shr_fexp prec emax m e l) as [mrs' e'].
  pose proof (shr_fexp_nonneg _ e' loc_Exact
                (round_nearest_even_nonneg _ (loc_of_shr_record mrs') H1))
    as H2.
  destruct (shr_fexp prec emax _ e' loc_Exact) as [mrs'' e''].
  simpl in H2.
  destruct (shr_m mrs''); [discriminate| |lia].
  destruct (Z.leb _ _); discriminate.
Qed.

Lemma SFdiv_core_binary_nonneg m1 e1 m2 e2 :
  0 ≤ fst (fst (SFdiv_core_binary prec emax (Zpos m1) e1 (Zpos m2) e2)).
Proof.
  unfold SFdiv_core_binary.
  set (s := _ - _ - _).
  set (m' := match s with Zpos _ => _ | Z0 => _ | Zneg _ => _ end).
  assert (0 ≤ m') as Hm'.
  { unfold m'. destruct s; try lia. apply Z.shiftl_nonneg. lia. }
  pose proof (Z.div_pos m' (Zpos m2) Hm' ltac:(lia)) as Hq.
  unfold Z.div in Hq.
  destruct (Z.div_eucl m' (Zpos m2)) as [q r]. exact Hq.
Qed.

(** The quotient is [NaN] only for a [NaN] operand, for two infinities
    and for two zeros. *)
Lemma SFdiv_nan a b :
  SFdiv prec emax a b = S754_nan →
  a = S754_nan ∨ b = S754_nan
  ∨ (∃ sa sb, a = S754_infinity sa ∧ b = S754_infinity sb)
  ∨ (∃ sa sb, a = S754_zero sa ∧ b = S754_zero sb).
Proof.
  destruct a as [sa|sa| |sa ma ea], b as [sb|sb| |sb mb eb];
    try discriminate; eauto 7.
  intros Hnan. exfalso. revert Hnan. unfold SFdiv.
  pose proof (SFdiv_core_binary_nonneg ma ea mb eb) as Hq.
  destruct (SFdiv_core_binary _ _ _ _ _ _) as [[mz ez] lz].
  by apply binary_round_aux_not_nan.
Qed.

End Rounding.

(** X7.  The guard on the divisor keeps [0 / 0] out: the value of
    [divide(a, b)] is [NaN] only when [a] or [b] is [NaN] or when both
    are infinite.  On finite operands a success is always a number that
    is not [NaN]. *)
Theorem divide_NaN_only_from_NaN_or_infinities
    (a b : spec_float) (h : Heap) r h' :
  divide a b h = (Normal r, h') →
  readIndex h' r 0 = Some NaN →
  a = S754_nan ∨ b = S754_nan
  ∨ ∃ sa sb, a = S754_infinity sa ∧ b = S754_infinity sb.
Proof.
  rewrite divide_run. intros [= <- <-]. rewrite readIndex_fresh.
  destruct b as [sb|sb| |sb mb eb]; simpl; [discriminate|..];
    (intros [= Hnan];
     apply SFdiv_nan in Hnan as [?|[?|[?|(? & ? & _ & [=])]]]; auto).
Qed.

Lemma divide_NaN_only_from_NaN_or_infinities_witness :
  S754_nan = S754_nan ∨ float 2 = S754_nan
  ∨ ∃ sa sb, S754_nan = S754_infinity sa ∧ float 2 = S754_infinity sb.
Proof.
  apply (divide_NaN_only_from_NaN_or_infinities S754_nan (float 2) []
           (JsObject 0) [ArrayObj [NaN; JsNull] false]);
    reflexivity.
Defined.

(** *** [getUser] and [processUser] *)

Section Users.
Variable numberToString : spec_float → string.
Implicit Types (id : spec_float) (h : Heap).

(** What a call of [getUser] returns and leaves in the heap, guard by
    guard. *)
Lemma getUser_run id h :
  getUser numberToString id h
  = if lessOrEqual id (float 0) then
      (Normal (JsObject (length h)),
       h ++ [ArrayObj [JsNull; JsString "invalid_id"] false])
    else if strictEquals (JsNumber id) (num 999) then
      (Normal (JsObject (length h)),
       h ++ [ArrayObj [JsNull; JsString "not_found"] false])
    else
      (Normal (JsObject (length (h ++ [userObject numberToString id]))),
       (h ++ [userObject numberToString id])
         ++ [ArrayObj [JsObject (length h); JsNull] false]).
Proof.
  unfold getUser.
  destruct (lessOrEqual id (float 0)); [apply err_run|].
  destruct (strictEquals (JsNumber id) (num 999)); [apply err_run|].
  reflexivity.
Qed.

Lemma userObject_is_User id h h' :
  User ((h ++ [userObject numberToString id]) ++ h') (JsObject (length h)).
Proof.
  eexists _, _, _, id, _. split; [reflexivity|].
  split; [apply lookup_older, lookup_fresh|].
  split; [apply lookup_insert_eq|].
  simpl. rewrite lookup_insert_ne by discriminate. apply lookup_insert_eq.
Qed.

(** X8.  [getUser(id)] completes normally on every number and returns a
    [Result<User, UserError>]: a failure exactly when [id <= 0] or
    [id === 999], a success otherwise, [NaN] included, whose value is a
    fresh object with [id] as its [id] and ['User '] followed by the
    number as its [name].  Objects already in the heap are not touched. *)
Theorem getUser_result id h :
  ∃ r h' elems,
    getUser numberToString id h = (Normal r, h')
    ∧ contents h' r = Some elems
    ∧ Result (User h') UserError elems
    ∧ (if lessOrEqual id (float 0) || strictEquals (JsNumber id) (num 999)
       then variant h' r = Some Failure
       else variant h' r = Some Success
            ∧ ∃ l, elems = [JsObject l; JsNull]
                   ∧ h !! l = None
                   ∧ h' !! l = Some (userObject numberToString id))
    ∧ (∀ l o, h !! l = Some o → h' !! l = Some o).
Proof.
  rewrite getUser_run.
  destruct (lessOrEqual id (float 0)); [|
    destruct (strictEquals (JsNumber id) (num 999))];
    eexists _, _, _; (split; [reflexivity|]);
    (split; [apply contents_fresh|]); simpl.
  - split; [apply Result_failure; by right|].
    split; [unfold variant; by rewrite readIndex_fresh|].
    intros l o. apply lookup_older.
  - split; [apply Result_failure; by left|].
    split; [unfold variant; by rewrite readIndex_fresh|].
    intros l o. apply lookup_older.
  - split; [apply Result_success, userObject_is_User|].
    split.
    + split; [unfold variant; by rewrite readIndex_fresh|].
      exists (length h). split; [reflexivity|].
      split; [by apply lookup_ge_None|].
      apply lookup_older, lookup_fresh.
    + intros l o Hl. by apply lookup_older, lookup_older.
Qed.

(** X9.  [processUser(id)] never throws, on any number: the errors of
    [getUser] are non-empty strings, so [if (error)] fires on each
    failure, and [user.name] is only read on the object of a success.  It
    returns ['Error: invalid_id'] when [id <= 0], ['Error: not_found'] when
    [id === 999], and ['Processing User '] followed by the number
    otherwise. *)
Theorem processUser_result id h :
  ∃ h',
    processUser numberToString id h
    = Some (Normal
              (if lessOrEqual id (float 0) then "Error: invalid_id"
               else if strictEquals (JsNumber id) (num 999)
                    then "Error: not_found"
                    else "Processing User " +:+ numberToString id),
            h').
Proof.
  unfold processUser, pbind, lift. rewrite getUser_run.
  destruct (lessOrEqual id (float 0)); [|
    destruct (strictEquals (JsNumber id) (num 999))];
    unfold destructured, observe, destructure;
    rewrite !readIndex_fresh; simpl; [by eexists..|].
  unfold getProperty, observe.
  rewrite (lookup_older _ _ _ _ (lookup_fresh h (userObject numberToString id))).
  simpl. rewrite lookup_insert_ne by discriminate.
  rewrite lookup_insert_eq. simpl. by eexists.
Qed.

End Users.

(** *** Propagation with [if (error) return err(error)] *)

Section Propagation.
Implicit Types (h : Heap) (r v e : JsValue).
Variables (operation : JS JsValue) (rest : JsValue → JS JsValue).

(** X10.  Propagating a failure rebuilds it: when the operation returns a
    container [[null, e]] with a truthy [e], the idiom returns a new
    container, distinct from the one it received and equal to it by value,
    allocates nothing else and never runs the rest of the caller. *)
Theorem propagate_failure h r h' e :
  operation h = (Normal r, h') →
  contents h' r = Some [JsNull; e] →
  toBoolean e = true →
  ∃ r' h'',
    propagate operation rest h = Some (Normal r', h'')
    ∧ r' ≠ r
    ∧ sameContents h'' r r'
    ∧ h'' = h' ++ [ArrayObj [JsNull; e] false].
Proof.
  intros Hop Hc He.
  exists (JsObject (length h')), (h' ++ [ArrayObj [JsNull; e] false]).
  split; [|split; [|split; [|reflexivity]]].
  - unfold propagate, pbind, lift, destructured, observe, destructure,
      readIndex.
    rewrite Hop, Hc. simpl. rewrite He. by rewrite err_run.
  - intros <-. unfold contents in Hc.
    by rewrite (lookup_ge_None_2 h' (length h')) in Hc.
  - exists [JsNull; e]. split; [by apply contents_older|].
    apply contents_fresh.
Qed.

(** X11.  The idiom never takes a success for a failure: after
    [ok(v)], whatever the value, falsy values and [null] included, it
    goes on with exactly [v], in the heap [ok] left. *)
Theorem propagate_ok v h :
  propagate (ok v) rest h
  = Some (rest v (h ++ [ArrayObj [v; JsNull] false])).
Proof.
  unfold propagate, pbind, lift, destructured, observe, destructure.
  rewrite ok_run, !readIndex_fresh. reflexivity.
Qed.

End Propagation.

Lemma propagate_failure_witness :
  ∃ r' h'',
    propagate (divide (float 10) (float 0)) ok [] = Some (Normal r', h'')
    ∧ r' ≠ JsObject 0
    ∧ sameContents h'' (JsObject 0) r'
    ∧ h'' = [ArrayObj [JsNull; JsString "division by zero"] false]
            ++ [ArrayObj [JsNull; JsString "division by zero"] false].
Proof.
  apply (propagate_failure (divide (float 10) (float 0)) ok []
           (JsObject 0)
           [ArrayObj [JsNull; JsString "division by zero"] false]
           (JsString "division by zero"));
    reflexivity.
Defined.

(** *** The success-only idiom *)

(** X12.  The success-only idiom [if (value)] is sound for a
    [Result<S, E>] whose success type admits truthy values only and whose
    error type does not admit [null]: its body runs on every success,
    with the value, and is skipped on every failure. *)
Theorem successOnly_sound (S E : JsValue → Prop) (h : Heap) r elems :
  (∀ s, S s → toBoolean s = true) →
  ¬ E JsNull →
  contents h r = Some elems →
  Result S E elems →
  (variant h r = Some Success
   ∧ ∃ s, S s ∧ successOnly h r = Some (ContinueWith s))
  ∨ (variant h r = Some Failure ∧ successOnly h r = Some Skipped).
Proof.
  intros HS HE Hc HR.
  unfold variant, successOnly, readIndex. rewrite Hc.
  destruct HR as [s Hs|e He]; simpl.
  - left. rewrite (HS s Hs). eauto.
  - right. assert (isNull e = false) as ->; [|done].
    apply isNull_false. by intros ->.
Qed.

Lemma successOnly_sound_witness :
  let h := [PlainObj {[ "id" := num 1; "name" := JsString "User 1" ]} false;
            ArrayObj [JsObject 0; JsNull] false] in
  (variant h (JsObject 1) = Some Success
   ∧ ∃ s, User h s ∧ successOnly h (JsObject 1) = Some (ContinueWith s))
  ∨ (variant h (JsObject 1) = Some Failure
     ∧ successOnly h (JsObject 1) = Some Skipped).
Proof.
  intros h.
  apply (successOnly_sound (User h) UserError h (JsObject 1)
           [JsObject 0; JsNull]).
  - by intros s (l & _ & _ & _ & _ & -> & _).
  - intros [[=]|[=]].
  - reflexivity.
  - apply Result_success.
    by exists 0, {[ "id" := num 1; "name" := JsString "User 1" ]}, false,
         (float 1), "User 1".
Defined.
